(** * rusuku: the timer state machine, the key dispatcher, the header text
    and the border plan of the 3x3 grid of [src/main.rs].

    Time: an [Instant] is a reading of the monotonic clock and a [Duration]
    a length of time, both in nanoseconds.  Every call of [Instant::now()]
    (directly, or through [Instant::elapsed]) is an explicit argument [now]:
    two calls are two arguments. *)

From Stdlib Require Import NArith ZArith List String Ascii Bool Lia Sorted DecimalN.
Import ListNotations.

(* ================================================================== *)
(** ** The application state and the timer *)

Module Timer.

Definition Instant := N.
Definition Duration := N.

(** [Instant::elapsed(&self)] read at clock value [now]: [Instant::now() - self],
    which saturates at zero (N subtraction).  [Duration] additions are
    unbounded here; Rust's would panic past [u64::MAX] seconds. *)
Definition instant_elapsed (now : Instant) (start : Instant) : Duration :=
  (now - start)%N.

(** [Duration::as_secs]: whole seconds. *)
Definition as_secs (d : Duration) : N := (d / 1000000000)%N.

(** [pub struct App] (derives [Default]). *)
Record App := mkApp {
  exit : bool;
  is_timer_running : bool;
  start_time : option Instant;
  elapsed_time : Duration
}.

(** [App::default()]. *)
Definition app_default : App := mkApp false false None 0%N.

(** [fn start_timer(&mut self)]. *)
Definition start_timer (now : Instant) (s : App) : App :=
  if is_timer_running s then s
  else
    let s := mkApp (exit s) true (start_time s) (elapsed_time s) in
    mkApp (exit s) (is_timer_running s) (Some now) (elapsed_time s).

(** [fn start_game(&mut self)]. *)
Definition start_game (now : Instant) (s : App) : App := start_timer now s.

(** [fn stop_timer(&mut self)]. *)
Definition stop_timer (now : Instant) (s : App) : App :=
  if negb (is_timer_running s) then s
  else
    let s := mkApp (exit s) false (start_time s) (elapsed_time s) in
    match start_time s with
    | Some st =>
        let s := mkApp (exit s) (is_timer_running s) (start_time s)
                   (elapsed_time s + instant_elapsed now st)%N in
        mkApp (exit s) (is_timer_running s) None (elapsed_time s)
    | None => s
    end.

(** [fn continue_timer(&mut self)]. *)
Definition continue_timer (now : Instant) (s : App) : App :=
  if is_timer_running s then s
  else
    let s := mkApp (exit s) (is_timer_running s) (Some now) (elapsed_time s) in
    mkApp (exit s) true (start_time s) (elapsed_time s).

(** [fn elapsed(&self) -> Duration]. *)
Definition elapsed (now : Instant) (s : App) : Duration :=
  match start_time s with
  | Some st =>
      if is_timer_running s then (elapsed_time s + instant_elapsed now st)%N
      else elapsed_time s
  | None => elapsed_time s
  end.

(** [fn exit(&mut self)] (the field of the same name is [exit]). *)
Definition app_exit (s : App) : App :=
  mkApp true (is_timer_running s) (start_time s) (elapsed_time s).

(** crossterm's [KeyCode], the character keys and a few others. *)
Inductive KeyCode :=
| Char (c : ascii)
| Enter
| Esc
| Backspace
| Tab
| Up
| Down
| Left
| Right
| F (n : nat).

(** [fn handle_key_event(&mut self, key_event: KeyEvent)]; [now] is the clock
    value read by the timer operation the key triggers. *)
Definition handle_key_event (now : Instant) (code : KeyCode) (s : App) : App :=
  match code with
  | Char c =>
      if Ascii.eqb c "q"%char then app_exit s
      else if Ascii.eqb c "i"%char then start_game now s
      else if Ascii.eqb c "p"%char then stop_timer now s
      else if Ascii.eqb c "c"%char then continue_timer now s
      else s
  | _ => s
  end.

(** The timer operations of the spec: start, pause, resume. *)
Inductive op := Start | Pause | Resume.

Definition apply_op (o : op) (now : Instant) (s : App) : App :=
  match o with
  | Start => start_timer now s
  | Pause => stop_timer now s
  | Resume => continue_timer now s
  end.

(** A run: operations, each with the clock value it reads. *)
Fixpoint run_ops (tr : list (op * Instant)) (s : App) : App :=
  match tr with
  | [] => s
  | (o, t) :: tr' => run_ops tr' (apply_op o t s)
  end.

(** A run of key presses from the main loop, each with its clock value. *)
Fixpoint run_keys (ks : list (KeyCode * Instant)) (s : App) : App :=
  match ks with
  | [] => s
  | (k, t) :: ks' => run_keys ks' (handle_key_event t k s)
  end.

(** [started_at] is present iff the timer is running. *)
Definition app_inv (s : App) : Prop :=
  is_timer_running s = true <-> start_time s <> None.

(** The spec's reading of a run: the matched start/resume -> pause segments
    [(opened, closed)], and the segment still open at the end, if any.  A
    start or resume while a segment is open and a pause while none is open
    are ignored. *)
Fixpoint segments (open : option Instant) (tr : list (op * Instant))
  : list (Instant * Instant) * option Instant :=
  match tr with
  | [] => ([], open)
  | (o, t) :: tr' =>
      match o, open with
      | Pause, Some t0 =>
          let '(segs, op_end) := segments None tr' in ((t0, t) :: segs, op_end)
      | Pause, None => segments None tr'
      | _, None => segments (Some t) tr'
      | _, Some _ => segments open tr'
      end
  end.

Definition sum_durations (segs : list (Instant * Instant)) : Duration :=
  fold_right (fun '(a, b) acc => ((b - a) + acc)%N) 0%N segs.

(** The elapsed time the spec describes: the closed segments' durations plus
    the open segment up to [now]. *)
Definition spec_elapsed (tr : list (op * Instant)) (now : Instant) : Duration :=
  let '(segs, op_end) := segments None tr in
  (sum_durations segs + match op_end with Some t0 => now - t0 | None => 0 end)%N.

End Timer.

(* ================================================================== *)
(** ** The header text of [render_header] *)

Module Header.
Import Timer.

(** Decimal digits of an unsigned number, as [Display] writes them. *)
Fixpoint uint_digits (d : Decimal.uint) : string :=
  match d with
  | Decimal.Nil => ""
  | Decimal.D0 d => String "0" (uint_digits d)
  | Decimal.D1 d => String "1" (uint_digits d)
  | Decimal.D2 d => String "2" (uint_digits d)
  | Decimal.D3 d => String "3" (uint_digits d)
  | Decimal.D4 d => String "4" (uint_digits d)
  | Decimal.D5 d => String "5" (uint_digits d)
  | Decimal.D6 d => String "6" (uint_digits d)
  | Decimal.D7 d => String "7" (uint_digits d)
  | Decimal.D8 d => String "8" (uint_digits d)
  | Decimal.D9 d => String "9" (uint_digits d)
  end.

Fixpoint zeros (k : nat) : string :=
  match k with
  | O => ""
  | S k => String "0" (zeros k)
  end.

(** [format!("{:02}", n)] for a [u64]: decimal, padded with zeros on the left
    to width 2, never truncated. *)
Definition fmt_02 (n : N) : string :=
  let s := uint_digits (N.to_uint n) in
  (zeros (2 - String.length s) ++ s)%string.

(** The text of [render_header]: [app.elapsed()] is called twice, once for the
    minutes (clock value [now_m]) and once for the seconds ([now_s]). *)
Definition header_text (app : App) (now_m now_s : Instant) : string :=
  let minutes := (as_secs (elapsed now_m app) / 60)%N in
  let seconds := (as_secs (elapsed now_s app) mod 60)%N in
  (fmt_02 minutes ++ ":" ++ fmt_02 seconds)%string.

(** The spec's header: [%02d:%02d] of one elapsed duration. *)
Definition spec_header (d : Duration) : string :=
  (fmt_02 (as_secs d / 60) ++ ":" ++ fmt_02 (as_secs d mod 60))%string.

End Header.

(* ================================================================== *)
(** ** The grid of [render_table] *)

Module Grid.

(** The [symbols::line] glyphs the grid uses. *)
Inductive glyph :=
| THICK_VERTICAL          (* U+2503 *)
| THICK_HORIZONTAL        (* U+2501 *)
| THICK_TOP_RIGHT         (* U+2513 *)
| THICK_TOP_LEFT          (* U+250F *)
| THICK_BOTTOM_RIGHT      (* U+251B *)
| THICK_BOTTOM_LEFT       (* U+2517 *)
| THICK_VERTICAL_LEFT     (* U+252B, T opening left *)
| THICK_VERTICAL_RIGHT    (* U+2523, T opening right *)
| THICK_HORIZONTAL_DOWN   (* U+2533, T opening down *)
| THICK_HORIZONTAL_UP     (* U+253B, T opening up *)
| THICK_CROSS.            (* U+254B *)

(** [symbols::border::Set]. *)
Record border_set := mkSet {
  top_left : glyph;
  top_right : glyph;
  bottom_left : glyph;
  bottom_right : glyph;
  vertical_left : glyph;
  vertical_right : glyph;
  horizontal_top : glyph;
  horizontal_bottom : glyph
}.

(** [symbols::border::THICK]. *)
Definition THICK : border_set :=
  mkSet THICK_TOP_LEFT THICK_TOP_RIGHT THICK_BOTTOM_LEFT THICK_BOTTOM_RIGHT
        THICK_VERTICAL THICK_VERTICAL THICK_HORIZONTAL THICK_HORIZONTAL.

(** The struct-update forms [Set { corner: g, ..s }]. *)
Definition with_top_left (g : glyph) (s : border_set) : border_set :=
  mkSet g (top_right s) (bottom_left s) (bottom_right s)
        (vertical_left s) (vertical_right s) (horizontal_top s) (horizontal_bottom s).
Definition with_top_right (g : glyph) (s : border_set) : border_set :=
  mkSet (top_left s) g (bottom_left s) (bottom_right s)
        (vertical_left s) (vertical_right s) (horizontal_top s) (horizontal_bottom s).
Definition with_bottom_left (g : glyph) (s : border_set) : border_set :=
  mkSet (top_left s) (top_right s) g (bottom_right s)
        (vertical_left s) (vertical_right s) (horizontal_top s) (horizontal_bottom s).
Definition with_bottom_right (g : glyph) (s : border_set) : border_set :=
  mkSet (top_left s) (top_right s) (bottom_left s) g
        (vertical_left s) (vertical_right s) (horizontal_top s) (horizontal_bottom s).

(** [Borders], a set of bit flags. *)
Definition NONE : Z := 0.
Definition TOP : Z := 1.
Definition RIGHT : Z := 2.
Definition BOTTOM : Z := 4.
Definition LEFT : Z := 8.
Definition ALL : Z := 15.

(** [Borders::contains]. *)
Definition contains (b other : Z) : bool := Z.eqb (Z.land b other) other.

(** The [border_set] match of [render_table]: [vi] is the column, [hi] the row. *)
Definition border_set_of (vi hi : nat) : border_set :=
  match vi, hi with
  | 0, 0 => with_bottom_left THICK_VERTICAL_RIGHT THICK
  | 1, 0 => with_bottom_right THICK_CROSS (with_bottom_left THICK_CROSS
              (with_top_left THICK_HORIZONTAL_DOWN
                (with_top_right THICK_HORIZONTAL_DOWN THICK)))
  | 2, 0 => with_bottom_right THICK_VERTICAL_LEFT THICK
  | 0, 1 => with_bottom_left THICK_VERTICAL_RIGHT THICK
  | 1, 1 => with_bottom_right THICK_CROSS (with_bottom_left THICK_CROSS THICK)
  | 2, 1 => with_bottom_right THICK_VERTICAL_LEFT THICK
  | 0, 2 => THICK
  | 1, 2 => with_bottom_right THICK_HORIZONTAL_UP
              (with_bottom_left THICK_HORIZONTAL_UP THICK)
  | 2, 2 => THICK
  | _, _ => THICK
  end.

(** The [borders] match of [render_table]. *)
Definition borders_of (vi hi : nat) : Z :=
  match vi, hi with
  | 0, 0 => Z.lor (Z.lor LEFT TOP) BOTTOM
  | 1, 0 => ALL
  | 2, 0 => Z.lor (Z.lor TOP RIGHT) BOTTOM
  | 0, 1 => Z.lor LEFT BOTTOM
  | 1, 1 => Z.lor (Z.lor RIGHT LEFT) BOTTOM
  | 2, 1 => Z.lor BOTTOM RIGHT
  | 0, 2 => Z.lor LEFT BOTTOM
  | 1, 2 => Z.lor (Z.lor LEFT BOTTOM) RIGHT
  | 2, 2 => Z.lor BOTTOM RIGHT
  | _, _ => ALL
  end.

(** Whether cell [(vi, hi)] paints side [side]. *)
Definition paints (vi hi : nat) (side : Z) : bool := contains (borders_of vi hi) side.

(** The spec's edge rule over a [cols] x [rows] grid of these cells: bottom
    always, top only in row 0, left in the first column, right in the last,
    and each internal boundary drawn by exactly one of its two cells. *)
Definition grid_plan_ok (cols rows : nat) : Prop :=
  forall c r, c < cols -> r < rows ->
    paints c r BOTTOM = true /\
    paints c r TOP = (r =? 0) /\
    (c = 0 -> paints c r LEFT = true) /\
    (c = cols - 1 -> paints c r RIGHT = true) /\
    (S c < cols -> xorb (paints c r RIGHT) (paints (S c) r LEFT) = true) /\
    (S r < rows -> xorb (paints c r BOTTOM) (paints c (S r) TOP) = true).

(** [Rect]: [x], [y], [width], [height]. *)
Record Rect := mkRect { rx : nat; ry : nat; rwidth : nat; rheight : nat }.
Definition left (r : Rect) : nat := rx r.
Definition right (r : Rect) : nat := rx r + rwidth r.
Definition top (r : Rect) : nat := ry r.
Definition bottom (r : Rect) : nat := ry r + rheight r.
Definition is_empty (r : Rect) : bool := (rwidth r =? 0) || (rheight r =? 0).

(** [a..b]. *)
Definition range (a b : nat) : list nat := seq a (b - a).

(** The symbols of a screen buffer; [None] is a blank cell. *)
Definition Buffer := nat -> nat -> option glyph.
Definition empty_buffer : Buffer := fun _ _ => None.

(** [buf[(x, y)].set_symbol(g)]. *)
Definition set_symbol (buf : Buffer) (x y : nat) (g : glyph) : Buffer :=
  fun x' y' => if (x' =? x) && (y' =? y) then Some g else buf x' y'.

(** ratatui's [Block::render_borders], side by side then corner by corner. *)
Definition render_left_side (b : Z) (s : border_set) (area : Rect) (buf : Buffer) : Buffer :=
  if contains b LEFT then
    fold_left (fun buf y => set_symbol buf (left area) y (vertical_left s))
      (range (top area) (bottom area)) buf
  else buf.

Definition render_top_side (b : Z) (s : border_set) (area : Rect) (buf : Buffer) : Buffer :=
  if contains b TOP then
    fold_left (fun buf x => set_symbol buf x (top area) (horizontal_top s))
      (range (left area) (right area)) buf
  else buf.

Definition render_right_side (b : Z) (s : border_set) (area : Rect) (buf : Buffer) : Buffer :=
  if contains b RIGHT then
    fold_left (fun buf y => set_symbol buf (right area - 1) y (vertical_right s))
      (range (top area) (bottom area)) buf
  else buf.

Definition render_bottom_side (b : Z) (s : border_set) (area : Rect) (buf : Buffer) : Buffer :=
  if contains b BOTTOM then
    fold_left (fun buf x => set_symbol buf x (bottom area - 1) (horizontal_bottom s))
      (range (left area) (right area)) buf
  else buf.

Definition render_bottom_right_corner (b : Z) (s : border_set) (area : Rect) (buf : Buffer) : Buffer :=
  if contains b (Z.lor RIGHT BOTTOM)
  then set_symbol buf (right area - 1) (bottom area - 1) (bottom_right s) else buf.

Definition render_top_right_corner (b : Z) (s : border_set) (area : Rect) (buf : Buffer) : Buffer :=
  if contains b (Z.lor RIGHT TOP)
  then set_symbol buf (right area - 1) (top area) (top_right s) else buf.

Definition render_bottom_left_corner (b : Z) (s : border_set) (area : Rect) (buf : Buffer) : Buffer :=
  if contains b (Z.lor LEFT BOTTOM)
  then set_symbol buf (left area) (bottom area - 1) (bottom_left s) else buf.

Definition render_top_left_corner (b : Z) (s : border_set) (area : Rect) (buf : Buffer) : Buffer :=
  if contains b (Z.lor LEFT TOP)
  then set_symbol buf (left area) (top area) (top_left s) else buf.

(** [Block::default().borders(b).border_set(s).render(area, buf)]: an empty
    area paints nothing; the cells lie inside the frame's buffer. *)
Definition render_block (b : Z) (s : border_set) (area : Rect) (buf : Buffer) : Buffer :=
  if is_empty area then buf
  else
    let buf := render_left_side b s area buf in
    let buf := render_top_side b s area buf in
    let buf := render_right_side b s area buf in
    let buf := render_bottom_side b s area buf in
    let buf := render_bottom_right_corner b s area buf in
    let buf := render_top_right_corner b s area buf in
    let buf := render_bottom_left_corner b s area buf in
    render_top_left_corner b s area buf.

(** The layouts of [render_table] as the solver returns them: the columns are
    adjacent, left to right from [ox], with widths [ws]; each column is split
    into adjacent rows, top to bottom from [oy], with heights [hs]. *)
Fixpoint adjacent (start : nat) (sizes : list nat) : list (nat * nat) :=
  match sizes with
  | [] => []
  | n :: sizes' => (start, n) :: adjacent (start + n) sizes'
  end.

Fixpoint enumerate_from {A} (i : nat) (l : list A) : list (nat * A) :=
  match l with
  | [] => []
  | a :: l' => (i, a) :: enumerate_from (S i) l'
  end.

(** The constraints of both layouts of [render_table],
    [[Constraint::Max(18); 3]]: three parts of at most 18 cells each.
    [Layout::split] returns one area per constraint. *)
Definition table_constraints : list nat := repeat 18 3.

(** [render_table]: for each column [vi], for each row [hi], render the block of
    cell [(vi, hi)]. *)
Definition render_table (ox oy : nat) (ws hs : list nat) (buf : Buffer) : Buffer :=
  fold_left
    (fun buf '(vi, (x, w)) =>
       fold_left
         (fun buf '(hi, (y, h)) =>
            render_block (borders_of vi hi) (border_set_of vi hi) (mkRect x y w h) buf)
         (enumerate_from 0 (adjacent oy hs)) buf)
    (enumerate_from 0 (adjacent ox ws)) buf.

(** The seamless 3x3 grid the spec describes.  Vertical lines at [vlines] and
    horizontal ones at [hlines] (index 0 and 3 on the perimeter); the glyph at
    the crossing of line [i] and line [j]. *)
Definition junction (i j : nat) : glyph :=
  match i, j with
  | 0, 0 => THICK_TOP_LEFT
  | 3, 0 => THICK_TOP_RIGHT
  | 0, 3 => THICK_BOTTOM_LEFT
  | 3, 3 => THICK_BOTTOM_RIGHT
  | 0, _ => THICK_VERTICAL_RIGHT
  | 3, _ => THICK_VERTICAL_LEFT
  | _, 0 => THICK_HORIZONTAL_DOWN
  | _, 3 => THICK_HORIZONTAL_UP
  | _, _ => THICK_CROSS
  end.

Fixpoint index_of (p : nat) (l : list nat) : option nat :=
  match l with
  | [] => None
  | a :: l' => if p =? a then Some 0 else option_map S (index_of p l')
  end.

Definition vlines (ox w0 w1 w2 : nat) : list nat :=
  [ox; ox + w0; ox + w0 + w1 - 1; ox + w0 + w1 + w2 - 1].
Definition hlines (oy h0 h1 h2 : nat) : list nat :=
  [oy; oy + h0 - 1; oy + h0 + h1 - 1; oy + h0 + h1 + h2 - 1].

Definition grid_picture (ox oy w0 w1 w2 h0 h1 h2 : nat) (x y : nat) : option glyph :=
  if (ox <=? x) && (x <? ox + w0 + w1 + w2) && (oy <=? y) && (y <? oy + h0 + h1 + h2)
  then
    match index_of x (vlines ox w0 w1 w2), index_of y (hlines oy h0 h1 h2) with
    | Some i, Some j => Some (junction i j)
    | Some _, None => Some THICK_VERTICAL
    | None, Some _ => Some THICK_HORIZONTAL
    | None, None => None
    end
  else None.

(** The symbol [render_block b s area] leaves at [(x, y)] over [old], read off
    point by point: the last write wins, so the corners come first, in the
    reverse of their painting order, then the sides. *)
Definition block_point (b : Z) (s : border_set) (area : Rect) (x y : nat)
  (old : option glyph) : option glyph :=
  if contains b (Z.lor LEFT TOP) && ((x =? left area) && (y =? top area))
  then Some (top_left s)
  else if contains b (Z.lor LEFT BOTTOM) && ((x =? left area) && (y =? bottom area - 1))
  then Some (bottom_left s)
  else if contains b (Z.lor RIGHT TOP) && ((x =? right area - 1) && (y =? top area))
  then Some (top_right s)
  else if contains b (Z.lor RIGHT BOTTOM) && ((x =? right area - 1) && (y =? bottom area - 1))
  then Some (bottom_right s)
  else if contains b BOTTOM &&
          ((y =? bottom area - 1) && ((left area <=? x) && (x <? right area)))
  then Some (horizontal_bottom s)
  else if contains b RIGHT &&
          ((x =? right area - 1) && ((top area <=? y) && (y <? bottom area)))
  then Some (vertical_right s)
  else if contains b TOP &&
          ((y =? top area) && ((left area <=? x) && (x <? right area)))
  then Some (horizontal_top s)
  else if contains b LEFT &&
          ((x =? left area) && ((top area <=? y) && (y <? bottom area)))
  then Some (vertical_left s)
  else old.

End Grid.

(* ================================================================== *)
(** ** The header's three boxes of [render_header] *)

Module HeaderBoxes.
Import Grid.

(** [render_header] after its layout: three boxes side by side from [ox], of
    widths [w0], [w1], [w2] and height [h].  The middle one, the paragraph
    with the timer text inside a titled block of [Borders::TOP | Borders::BOTTOM],
    is drawn first; its rendering is the argument [para].  Then the left box
    and the right box, both [Borders::ALL] with [border::THICK]. *)
Definition render_header_boxes (para : Rect -> Buffer -> Buffer)
  (ox oy w0 w1 w2 h : nat) (buf : Buffer) : Buffer :=
  let a0 := mkRect ox oy w0 h in
  let a1 := mkRect (ox + w0) oy w1 h in
  let a2 := mkRect (ox + w0 + w1) oy w2 h in
  let buf := para a1 buf in
  let buf := render_block ALL THICK a0 buf in
  render_block ALL THICK a2 buf.

(** The picture of a closed thick frame around [a]. *)
Definition frame_picture (a : Rect) (x y : nat) : option glyph :=
  if negb ((left a <=? x) && (x <? right a) && (top a <=? y) && (y <? bottom a))
  then None
  else if x =? left a then
    (if y =? top a then Some THICK_TOP_LEFT
     else if y =? bottom a - 1 then Some THICK_BOTTOM_LEFT
     else Some THICK_VERTICAL)
  else if x =? right a - 1 then
    (if y =? top a then Some THICK_TOP_RIGHT
     else if y =? bottom a - 1 then Some THICK_BOTTOM_RIGHT
     else Some THICK_VERTICAL)
  else if (y =? top a) || (y =? bottom a - 1) then Some THICK_HORIZONTAL
  else None.

End HeaderBoxes.

(* ================================================================== *)
(** ** The main loop: [App::run], [App::handle_events] and [main] *)

Module MainLoop.
Import Timer.

(** [io::Result<T>]; the error itself plays no role. *)
Inductive io_result (A : Type) := Ok (a : A) | Err.
Arguments Ok {A} a.
Arguments Err {A}.

(** crossterm's [KeyEventKind]. *)
Inductive KeyEventKind := Press | Repeat | Release.

(** crossterm's [KeyEvent]: the code and the kind (the modifiers and the
    state are never read by this program). *)
Record KeyEvent := mkKeyEvent { code : KeyCode; kind : KeyEventKind }.

(** crossterm's [Event]. *)
Inductive Event :=
| FocusGained
| FocusLost
| Key (k : KeyEvent)
| Mouse
| Paste (text : string)
| Resize (cols rows : nat).

(** What [event::poll(10 ms)] and then, if it reports an event,
    [event::read()] return. *)
Inductive Poll :=
| PollFailed
| PollTimeout
| ReadFailed
| Read (e : Event).

(** [fn handle_events(&mut self) -> io::Result<()>]; [now] is the clock value
    of the timer operation a key may trigger. *)
Definition handle_events (now : Instant) (p : Poll) (s : App) : io_result App :=
  match p with
  | PollFailed => Err
  | PollTimeout => Ok s
  | ReadFailed => Err
  | Read (Key ke) =>
      match kind ke with
      | Press => Ok (handle_key_event now (code ke) s)
      | _ => Ok s
      end
  | Read _ => Ok s
  end.

(** One turn of the loop of [App::run]: whether [terminal.draw] succeeds
    (drawing only reads the state), what the event source returns, and the
    clock value of the turn. *)
Record Iteration := mkIter { draw_ok : bool; polled : Poll; clock : Instant }.

(** How [App::run] stands after a finite list of turns: it returned [Ok(())]
    (the exit flag was seen), it returned an error, or it is still looping. *)
Inductive Outcome := Exited (s : App) | Failed (s : App) | Pending (s : App).

(** [pub fn run(&mut self, terminal) -> io::Result<()>]. *)
Fixpoint run (its : list Iteration) (s : App) : Outcome :=
  if exit s then Exited s
  else
    match its with
    | [] => Pending s
    | it :: its' =>
        if negb (draw_ok it) then Failed s
        else
          match handle_events (clock it) (polled it) s with
          | Err => Failed s
          | Ok s' => run its' s'
          end
    end.

(** [fn main() -> io::Result<()>]: [tui::init()?], the loop from
    [App::default()], [tui::restore()?], then the loop's result.  [None] while
    the loop has not returned. *)
Definition main (init_ok : bool) (its : list Iteration) (restore_ok : bool)
  : option (io_result unit) :=
  if negb init_ok then Some Err
  else
    match run its app_default with
    | Pending _ => None
    | o =>
        if negb restore_ok then Some Err
        else match o with Exited _ => Some (Ok tt) | _ => Some Err end
    end.

(** The key presses the loop hands to [handle_key_event], with their clock
    values, in the turns it runs. *)
Definition pressed (it : Iteration) : list (KeyCode * Instant) :=
  match polled it with
  | Read (Key ke) =>
      match kind ke with Press => [(code ke, clock it)] | _ => [] end
  | _ => []
  end.

Definition q_press : Poll := Read (Key (mkKeyEvent (Char "q") Press)).

(** The state an outcome carries. *)
Definition outcome_state (o : Outcome) : App :=
  match o with Exited s | Failed s | Pending s => s end.

End MainLoop.

(* ================================================================== *)
(** ** Reading the header text back *)

Module Decode.
Import Timer Header.

(** The value of a decimal digit character. *)
Definition digit_value (c : ascii) : option N :=
  let k := nat_of_ascii c in
  if (48 <=? k)%nat && (k <=? 57)%nat then Some (N.of_nat (k - 48)) else None.

Fixpoint parse_acc (acc : N) (s : string) : option N :=
  match s with
  | EmptyString => Some acc
  | String c s' =>
      match digit_value c with
      | Some k => parse_acc (10 * acc + k)%N s'
      | None => None
      end
  end.

(** A non-empty string of decimal digits, read as a number. *)
Definition parse_decimal (s : string) : option N :=
  if (String.length s =? 0)%nat then None else parse_acc 0%N s.

(** Split at the first [':']. *)
Fixpoint split_colon (s : string) : option (string * string) :=
  match s with
  | EmptyString => None
  | String c s' =>
      if Ascii.eqb c ":"%char then Some (EmptyString, s')
      else option_map (fun '(a, b) => (String c a, b)) (split_colon s')
  end.

(** [mm:ss] read back as the pair (minutes, seconds). *)
Definition parse_header (s : string) : option (N * N) :=
  match split_colon s with
  | Some (a, b) =>
      match parse_decimal a, parse_decimal b with
      | Some m, Some k => Some (m, k)
      | _, _ => None
      end
  | None => None
  end.

(** The digit character of [d < 10]. *)
Definition digit_char (d : N) : ascii := ascii_of_nat (48 + N.to_nat d).

(** The value of a [Decimal.uint] read from the left, from [acc]. *)
Fixpoint uint_val_acc (acc : N) (d : Decimal.uint) : N :=
  match d with
  | Decimal.Nil => acc
  | Decimal.D0 d => uint_val_acc (10 * acc + 0)%N d
  | Decimal.D1 d => uint_val_acc (10 * acc + 1)%N d
  | Decimal.D2 d => uint_val_acc (10 * acc + 2)%N d
  | Decimal.D3 d => uint_val_acc (10 * acc + 3)%N d
  | Decimal.D4 d => uint_val_acc (10 * acc + 4)%N d
  | Decimal.D5 d => uint_val_acc (10 * acc + 5)%N d
  | Decimal.D6 d => uint_val_acc (10 * acc + 6)%N d
  | Decimal.D7 d => uint_val_acc (10 * acc + 7)%N d
  | Decimal.D8 d => uint_val_acc (10 * acc + 8)%N d
  | Decimal.D9 d => uint_val_acc (10 * acc + 9)%N d
  end.

End Decode.

(* ================================================================== *)
(** ** Timer: proofs *)

Module TimerFacts.
Import Timer.

Lemma app_inv_cases (s : App) :
  app_inv s ->
  (is_timer_running s = true /\ exists t0, start_time s = Some t0) \/
  (is_timer_running s = false /\ start_time s = None).
Proof.
  unfold app_inv; destruct s as [e [|] [t0|] a]; simpl; intros [H1 H2].
  - left; eauto.
  - exfalso; now apply H1.
  - exfalso; discriminate (H2 ltac:(discriminate)).
  - right; auto.
Qed.

Lemma app_inv_running (e : bool) (t0 : Instant) (a : Duration) :
  app_inv (mkApp e true (Some t0) a).
Proof. unfold app_inv; simpl; split; [discriminate | auto]. Qed.

Lemma app_inv_stopped (e : bool) (a : Duration) :
  app_inv (mkApp e false None a).
Proof. unfold app_inv; simpl; split; [discriminate | now intros []]. Qed.

Create HintDb timer.
#[local] Hint Resolve app_inv_running app_inv_stopped : timer.

(** Every operation keeps [app_inv]. *)
Lemma apply_op_inv (o : op) (now : Instant) (s : App) :
  app_inv s -> app_inv (apply_op o now s).
Proof.
  intros H; destruct (app_inv_cases s H) as [[Hr [t0 Ht]] | [Hr Ht]];
    destruct s as [e r st a]; simpl in *; subst;
    destruct o; unfold apply_op, start_timer, stop_timer, continue_timer;
    simpl; auto with timer.
Qed.

Lemma app_exit_inv (s : App) : app_inv s -> app_inv (app_exit s).
Proof. destruct s; unfold app_inv, app_exit; simpl; auto. Qed.

Lemma handle_key_event_inv (now : Instant) (k : KeyCode) (s : App) :
  app_inv s -> app_inv (handle_key_event now k s).
Proof.
  intros H; destruct k as [c| | | | | | | | |n]; simpl; auto.
  destruct (Ascii.eqb c "q"); [now apply app_exit_inv|].
  destruct (Ascii.eqb c "i"); [now apply (apply_op_inv Start)|].
  destruct (Ascii.eqb c "p"); [now apply (apply_op_inv Pause)|].
  destruct (Ascii.eqb c "c"); [now apply (apply_op_inv Resume)|].
  exact H.
Qed.

Lemma run_ops_inv (tr : list (op * Instant)) (s : App) :
  app_inv s -> app_inv (run_ops tr s).
Proof.
  revert s; induction tr as [|[o t] tr IH]; intros s H; simpl; auto.
  apply IH, apply_op_inv, H.
Qed.

Lemma run_keys_inv (ks : list (KeyCode * Instant)) (s : App) :
  app_inv s -> app_inv (run_keys ks s).
Proof.
  revert s; induction ks as [|[k t] ks IH]; intros s H; simpl; auto.
  apply IH, handle_key_event_inv, H.
Qed.

Lemma app_default_inv : app_inv app_default.
Proof. apply app_inv_stopped. Qed.

(** A run from a state satisfying [app_inv] adds the closed segments of the
    run to [elapsed_time], and ends with the open segment as [start_time]. *)
Lemma run_ops_segments (tr : list (op * Instant)) (s : App) :
  app_inv s ->
  elapsed_time (run_ops tr s) = (elapsed_time s + sum_durations (fst (segments (start_time s) tr)))%N /\
  start_time (run_ops tr s) = snd (segments (start_time s) tr).
Proof.
  revert s; induction tr as [|[o t] tr IH]; intros s H.
  - simpl; split; [lia | reflexivity].
  - destruct (app_inv_cases s H) as [[Hr [t0 Ht]] | [Hr Ht]];
      destruct s as [e r st a]; simpl in Hr, Ht; subst.
    + destruct o; simpl.
      * apply (IH (mkApp e true (Some t0) a)); auto with timer.
      * destruct (IH (mkApp e false None (a + instant_elapsed t t0)%N)) as [IH1 IH2];
          [auto with timer|].
        unfold stop_timer; simpl in *.
        destruct (segments None tr) as [segs op_end]; simpl in *.
        unfold sum_durations, instant_elapsed in *; simpl; split; [lia | exact IH2].
      * apply (IH (mkApp e true (Some t0) a)); auto with timer.
    + destruct o; simpl.
      * apply (IH (mkApp e true (Some t) a)); auto with timer.
      * apply (IH (mkApp e false None a)); auto with timer.
      * apply (IH (mkApp e true (Some t) a)); auto with timer.
Qed.

(** [elapsed] is monotone in the clock value. *)
Lemma elapsed_mono_now (s : App) (t1 t2 : Instant) :
  (t1 <= t2)%N -> (elapsed t1 s <= elapsed t2 s)%N.
Proof.
  intros H; destruct s as [e [|] [t0|] a]; unfold elapsed, instant_elapsed; simpl; lia.
Qed.

(** One operation read at [t >= t1] does not lower the elapsed time seen at [t1]. *)
Lemma elapsed_step_mono (o : op) (s : App) (t1 t : Instant) :
  (t1 <= t)%N -> (elapsed t1 s <= elapsed t (apply_op o t s))%N.
Proof.
  intros H; destruct s as [e [|] [t0|] a]; destruct o;
    unfold apply_op, start_timer, stop_timer, continue_timer, elapsed, instant_elapsed;
    simpl; lia.
Qed.

End TimerFacts.

Module TimerClaims.
Import Timer TimerFacts.

(** C1: after any run of start/pause/resume from [App::default()],
    [elapsed()] equals the sum of the matched start/resume -> pause segments
    plus the open segment, if any; and it is [elapsed_time + (now - start_time)]
    when running, [elapsed_time] otherwise. *)
Theorem elapsed_is_sum_of_segments (tr : list (op * Instant)) (now : Instant) :
  let s := run_ops tr app_default in
  elapsed now s = spec_elapsed tr now /\
  match start_time s with
  | Some t0 => is_timer_running s = true /\ elapsed now s = (elapsed_time s + (now - t0))%N
  | None => is_timer_running s = false /\ elapsed now s = elapsed_time s
  end.
Proof.
  cbv zeta.
  pose proof (run_ops_inv tr app_default app_default_inv) as Hinv.
  destruct (run_ops_segments tr app_default app_default_inv) as [H1 H2].
  unfold spec_elapsed; simpl in H1, H2.
  destruct (segments None tr) as [segs op_end]; simpl in H1, H2.
  destruct (app_inv_cases _ Hinv) as [[Hr [t0 Ht]] | [Hr Ht]];
    unfold elapsed; rewrite Ht, ?Hr; rewrite Ht in H2; subst op_end;
    unfold instant_elapsed; rewrite H1.
  - split; [lia | split; [reflexivity | lia]].
  - split; [lia | split; [reflexivity | lia]].
Qed.

(** C2: [start_timer] and [continue_timer] (keys i and c) do nothing on a
    running timer, so [elapsed()] at any clock value is unchanged; on a stopped
    one both set it running, with [start_time = now], the accumulated duration
    and the exit flag untouched. *)
Theorem start_resume_spec (s : App) (now : Instant) :
  (is_timer_running s = true ->
     start_timer now s = s /\ continue_timer now s = s /\
     (forall t, elapsed t (start_timer now s) = elapsed t s) /\
     (forall t, elapsed t (continue_timer now s) = elapsed t s)) /\
  (is_timer_running s = false ->
     start_timer now s = mkApp (exit s) true (Some now) (elapsed_time s) /\
     continue_timer now s = mkApp (exit s) true (Some now) (elapsed_time s)).
Proof.
  unfold start_timer, continue_timer; split; intros H; rewrite H; simpl; auto.
Qed.

(** C3: [stop_timer] (key p) does nothing on a stopped timer, so [elapsed()]
    is unchanged; on a running timer with accumulated [a] and start [t0] it
    stops it with accumulated [a + (now - t0)] and no start. *)
Theorem pause_spec (s : App) (now : Instant) :
  (is_timer_running s = false ->
     stop_timer now s = s /\ (forall t, elapsed t (stop_timer now s) = elapsed t s)) /\
  (forall a t0, is_timer_running s = true -> start_time s = Some t0 -> elapsed_time s = a ->
     stop_timer now s = mkApp (exit s) false None (a + (now - t0))%N).
Proof.
  unfold stop_timer; split.
  - intros H; rewrite H; simpl; auto.
  - intros a t0 H Ht Ha; rewrite H, Ht, <- Ha; reflexivity.
Qed.

(** C7: key q sets the exit flag and nothing else; keys i, p, c run
    [start_timer], [stop_timer], [continue_timer]; every other key leaves the
    state as it is. *)
Theorem handle_key_event_spec (s : App) (now : Instant) :
  handle_key_event now (Char "q") s =
    mkApp true (is_timer_running s) (start_time s) (elapsed_time s) /\
  handle_key_event now (Char "i") s = start_timer now s /\
  handle_key_event now (Char "p") s = stop_timer now s /\
  handle_key_event now (Char "c") s = continue_timer now s /\
  (forall k, ~ In k [Char "q"; Char "i"; Char "p"; Char "c"] ->
     handle_key_event now k s = s).
Proof.
  repeat split.
  intros k Hk; destruct k as [c| | | | | | | | |n]; simpl; auto.
  destruct (Ascii.eqb_spec c "q"); [subst; exfalso; apply Hk; simpl; auto|].
  destruct (Ascii.eqb_spec c "i"); [subst; exfalso; apply Hk; simpl; auto|].
  destruct (Ascii.eqb_spec c "p"); [subst; exfalso; apply Hk; simpl; auto|].
  destruct (Ascii.eqb_spec c "c"); [subst; exfalso; apply Hk; simpl; auto|].
  reflexivity.
Qed.

(** C8: "[start_time] is present iff the timer runs" holds of
    [App::default()], is kept by start, pause, resume, exit and every key,
    and so holds after every run of operations or keys. *)
Theorem start_time_iff_running :
  app_inv app_default /\
  (forall s now, app_inv s ->
     app_inv (start_timer now s) /\ app_inv (stop_timer now s) /\
     app_inv (continue_timer now s) /\ app_inv (app_exit s) /\
     (forall k, app_inv (handle_key_event now k s))) /\
  (forall tr, app_inv (run_ops tr app_default)) /\
  (forall ks, app_inv (run_keys ks app_default)).
Proof.
  split; [exact app_default_inv|].
  split; [|split].
  - intros s now H; repeat split.
    + now apply (apply_op_inv Start).
    + now apply (apply_op_inv Start).
    + now apply (apply_op_inv Pause).
    + now apply (apply_op_inv Pause).
    + now apply (apply_op_inv Resume).
    + now apply (apply_op_inv Resume).
    + now apply app_exit_inv.
    + now apply app_exit_inv.
    + now apply handle_key_event_inv.
    + now apply handle_key_event_inv.
  - intros tr; apply run_ops_inv, app_default_inv.
  - intros ks; apply run_keys_inv, app_default_inv.
Qed.

(** C9: if the clock never goes back (the clock value [t1] of an observation,
    then those of the operations, then [t2] of a later observation, in order),
    the later [elapsed()] is at least the earlier one, from any state. *)
Theorem elapsed_monotone (s : App) (t1 : Instant) (tr : list (op * Instant)) (t2 : Instant) :
  Sorted N.le (t1 :: map snd tr ++ [t2]) ->
  (elapsed t1 s <= elapsed t2 (run_ops tr s))%N.
Proof.
  revert s t1; induction tr as [|[o t] tr IH]; intros s t1 Hs; simpl in *.
  - apply elapsed_mono_now.
    apply Sorted_inv in Hs as [_ Hd]; now apply HdRel_inv in Hd.
  - apply Sorted_inv in Hs as [Hs Hd]; apply HdRel_inv in Hd.
    eapply N.le_trans; [apply (elapsed_step_mono o s t1 t Hd)|].
    apply IH, Hs.
Qed.

(** C10: [elapsed_time] never goes down: start, resume and exit keep it, pause
    adds [now - start_time] (a duration, so non-negative) when running, and no
    key or run of operations lowers it. *)
Theorem elapsed_time_never_decreases (s : App) (now : Instant) :
  elapsed_time (start_timer now s) = elapsed_time s /\
  elapsed_time (continue_timer now s) = elapsed_time s /\
  elapsed_time (app_exit s) = elapsed_time s /\
  elapsed_time (stop_timer now s) =
    (elapsed_time s +
     match is_timer_running s, start_time s with
     | true, Some t0 => now - t0
     | _, _ => 0
     end)%N /\
  (forall k, (elapsed_time s <= elapsed_time (handle_key_event now k s))%N) /\
  (forall tr, (elapsed_time s <= elapsed_time (run_ops tr s))%N).
Proof.
  assert (Hop : forall o t s', (elapsed_time s' <= elapsed_time (apply_op o t s'))%N).
  { intros o t [e [|] [t0|] a]; destruct o;
      unfold apply_op, start_timer, stop_timer, continue_timer, instant_elapsed;
      simpl; lia. }
  destruct s as [e r st a].
  split; [unfold start_timer; destruct r; reflexivity|].
  split; [unfold continue_timer; destruct r; reflexivity|].
  split; [reflexivity|].
  split; [unfold stop_timer, instant_elapsed; destruct r, st; simpl; lia|].
  split.
  - intros k; destruct k as [c| | | | | | | | |n]; simpl; try lia.
    destruct (Ascii.eqb c "q"); [simpl; lia|].
    destruct (Ascii.eqb c "i"); [exact (Hop Start now (mkApp e r st a))|].
    destruct (Ascii.eqb c "p"); [exact (Hop Pause now (mkApp e r st a))|].
    destruct (Ascii.eqb c "c"); [exact (Hop Resume now (mkApp e r st a))|].
    simpl; lia.
  - intros tr; revert e r st a; induction tr as [|[o t] tr IH]; intros e r st a;
      simpl; [lia|].
    destruct (apply_op o t (mkApp e r st a)) as [e' r' st' a'] eqn:E.
    eapply N.le_trans; [|apply IH].
    pose proof (Hop o t (mkApp e r st a)) as H; rewrite E in H; exact H.
Qed.

(** Witness of C9: start at 0, pause at 10 s, resume at 60 s, observe at
    0 s and at 65 s. *)
Lemma elapsed_monotone_witness :
  Sorted N.le (0%N :: map snd [(Start, 0%N); (Pause, 10000000000%N);
                               (Resume, 60000000000%N)] ++ [65000000000%N]) /\
  (elapsed 0%N app_default <=
   elapsed 65000000000%N (run_ops [(Start, 0%N); (Pause, 10000000000%N);
                                 (Resume, 60000000000%N)] app_default))%N.
Proof.
  assert (Hs : Sorted N.le (0%N :: map snd [(Start, 0%N); (Pause, 10000000000%N);
                               (Resume, 60000000000%N)] ++ [65000000000%N])).
  { simpl; repeat constructor; simpl; lia. }
  split; [exact Hs | exact (elapsed_monotone app_default 0%N _ 65000000000%N Hs)].
Defined.

End TimerClaims.

(* ================================================================== *)
(** ** Grid: proofs *)

Module GridFacts.
Import Grid.

(** A column of writes at [x], rows [a .. a + n). *)
Lemma fold_set_column (buf : Buffer) (x : nat) (g : glyph) (a n x' y' : nat) :
  fold_left (fun buf y => set_symbol buf x y g) (seq a n) buf x' y' =
  if (x' =? x) && ((a <=? y') && (y' <? a + n)) then Some g else buf x' y'.
Proof.
  induction n as [|n IH].
  - simpl; destruct (x' =? x), (Nat.leb_spec a y'), (Nat.ltb_spec y' (a + 0));
      simpl; auto; lia.
  - rewrite seq_S, fold_left_app; simpl; unfold set_symbol at 1; rewrite IH.
    destruct (Nat.eqb_spec x' x), (Nat.eqb_spec y' (a + n)),
      (Nat.leb_spec a y'), (Nat.ltb_spec y' (a + n)), (Nat.ltb_spec y' (a + S n));
      simpl; auto; lia.
Qed.

(** A row of writes at [y], columns [a .. a + n). *)
Lemma fold_set_row (buf : Buffer) (y : nat) (g : glyph) (a n x' y' : nat) :
  fold_left (fun buf x => set_symbol buf x y g) (seq a n) buf x' y' =
  if (y' =? y) && ((a <=? x') && (x' <? a + n)) then Some g else buf x' y'.
Proof.
  induction n as [|n IH].
  - simpl; destruct (y' =? y), (Nat.leb_spec a x'), (Nat.ltb_spec x' (a + 0));
      simpl; auto; lia.
  - rewrite seq_S, fold_left_app; simpl; unfold set_symbol at 1; rewrite IH.
    destruct (Nat.eqb_spec y' y), (Nat.eqb_spec x' (a + n)),
      (Nat.leb_spec a x'), (Nat.ltb_spec x' (a + n)), (Nat.ltb_spec x' (a + S n));
      simpl; auto; lia.
Qed.

Lemma range_top_bottom (area : Rect) :
  range (top area) (bottom area) = seq (top area) (rheight area).
Proof. unfold range, top, bottom; f_equal; lia. Qed.

Lemma range_left_right (area : Rect) :
  range (left area) (right area) = seq (left area) (rwidth area).
Proof. unfold range, left, right; f_equal; lia. Qed.

Lemma top_plus_height (area : Rect) : top area + rheight area = bottom area.
Proof. reflexivity. Qed.

Lemma left_plus_width (area : Rect) : left area + rwidth area = right area.
Proof. reflexivity. Qed.

Ltac side_tac lemma :=
  match goal with
  | |- context [if contains ?b ?f then _ else _] =>
      destruct (contains b f); simpl;
      [ rewrite ?range_top_bottom, ?range_left_right, lemma,
          ?top_plus_height, ?left_plus_width; reflexivity
      | reflexivity ]
  end.

Lemma render_left_side_at b s area buf x y :
  render_left_side b s area buf x y =
  if contains b LEFT && ((x =? left area) && ((top area <=? y) && (y <? bottom area)))
  then Some (vertical_left s) else buf x y.
Proof. unfold render_left_side; side_tac fold_set_column. Qed.

Lemma render_top_side_at b s area buf x y :
  render_top_side b s area buf x y =
  if contains b TOP && ((y =? top area) && ((left area <=? x) && (x <? right area)))
  then Some (horizontal_top s) else buf x y.
Proof. unfold render_top_side; side_tac fold_set_row. Qed.

Lemma render_right_side_at b s area buf x y :
  render_right_side b s area buf x y =
  if contains b RIGHT && ((x =? right area - 1) && ((top area <=? y) && (y <? bottom area)))
  then Some (vertical_right s) else buf x y.
Proof. unfold render_right_side; side_tac fold_set_column. Qed.

Lemma render_bottom_side_at b s area buf x y :
  render_bottom_side b s area buf x y =
  if contains b BOTTOM && ((y =? bottom area - 1) && ((left area <=? x) && (x <? right area)))
  then Some (horizontal_bottom s) else buf x y.
Proof. unfold render_bottom_side; side_tac fold_set_row. Qed.

Ltac corner_tac :=
  match goal with
  | |- context [if contains ?b ?f then _ else _] =>
      destruct (contains b f); reflexivity
  end.

Lemma render_bottom_right_corner_at b s area buf x y :
  render_bottom_right_corner b s area buf x y =
  if contains b (Z.lor RIGHT BOTTOM) && ((x =? right area - 1) && (y =? bottom area - 1))
  then Some (bottom_right s) else buf x y.
Proof. unfold render_bottom_right_corner, set_symbol; corner_tac. Qed.

Lemma render_top_right_corner_at b s area buf x y :
  render_top_right_corner b s area buf x y =
  if contains b (Z.lor RIGHT TOP) && ((x =? right area - 1) && (y =? top area))
  then Some (top_right s) else buf x y.
Proof. unfold render_top_right_corner, set_symbol; corner_tac. Qed.

Lemma render_bottom_left_corner_at b s area buf x y :
  render_bottom_left_corner b s area buf x y =
  if contains b (Z.lor LEFT BOTTOM) && ((x =? left area) && (y =? bottom area - 1))
  then Some (bottom_left s) else buf x y.
Proof. unfold render_bottom_left_corner, set_symbol; corner_tac. Qed.

Lemma render_top_left_corner_at b s area buf x y :
  render_top_left_corner b s area buf x y =
  if contains b (Z.lor LEFT TOP) && ((x =? left area) && (y =? top area))
  then Some (top_left s) else buf x y.
Proof. unfold render_top_left_corner, set_symbol; corner_tac. Qed.

(** [render_block] on a non-empty area, point by point. *)
Lemma render_block_at b s area buf x y :
  is_empty area = false ->
  render_block b s area buf x y = block_point b s area x y (buf x y).
Proof.
  intros He; unfold render_block; rewrite He; cbv zeta.
  rewrite render_top_left_corner_at, render_bottom_left_corner_at,
    render_top_right_corner_at, render_bottom_right_corner_at,
    render_bottom_side_at, render_right_side_at, render_top_side_at,
    render_left_side_at.
  reflexivity.
Qed.

(** Case analysis on the comparisons of a goal, dropping the impossible
    branches. *)
Ltac cmp_split :=
  repeat (match goal with
    | |- context [Nat.eqb ?a ?b] => destruct (Nat.eqb_spec a b)
    | |- context [Nat.ltb ?a ?b] => destruct (Nat.ltb_spec a b)
    | |- context [Nat.leb ?a ?b] => destruct (Nat.leb_spec a b)
    end; cbn [andb]; rewrite ?andb_false_r; try (exfalso; lia)).

(** Outside its (non-empty) area a block leaves the buffer as it is. *)
Lemma block_point_outside b s area x y old :
  1 <= rwidth area -> 1 <= rheight area ->
  (x < left area \/ right area <= x \/ y < top area \/ bottom area <= y) ->
  block_point b s area x y old = old.
Proof.
  intros Hw Hh Hout; destruct area as [ax ay aw ah];
    unfold block_point, left, right, top, bottom in *; simpl in *.
  cmp_split; reflexivity.
Qed.

End GridFacts.

Module GridClaims.
Import Grid GridFacts.

Ltac nonempty_tac :=
  unfold is_empty; cbn [rwidth rheight];
  apply orb_false_iff; split; apply Nat.eqb_neq; lia.

Ltac drop_outside :=
  repeat match goal with
  | |- context [block_point ?b ?s ?a ?x ?y ?o] =>
      rewrite (block_point_outside b s a x y o)
        by (cbv [left right top bottom rx ry rwidth rheight]; lia)
  end.

Ltac eval_contains :=
  repeat match goal with
  | |- context [contains ?b ?f] =>
      let v := eval vm_compute in (contains b f) in change (contains b f) with v
  end.

(** Settle each comparison by [lia] where the hypotheses decide it, and split
    on the others. *)
Ltac decide_cmps :=
  repeat (match goal with
  | |- context [Nat.eqb ?a ?b] =>
      first [ replace (Nat.eqb a b) with false by (symmetry; apply Nat.eqb_neq; lia)
            | replace (Nat.eqb a b) with true by (symmetry; apply Nat.eqb_eq; lia)
            | destruct (Nat.eqb_spec a b) ]
  | |- context [Nat.ltb ?a ?b] =>
      first [ replace (Nat.ltb a b) with false by (symmetry; apply Nat.ltb_ge; lia)
            | replace (Nat.ltb a b) with true by (symmetry; apply Nat.ltb_lt; lia) ]
  | |- context [Nat.leb ?a ?b] =>
      first [ replace (Nat.leb a b) with false by (symmetry; apply Nat.leb_gt; lia)
            | replace (Nat.leb a b) with true by (symmetry; apply Nat.leb_le; lia) ]
  end; cbn [andb]).

(** C5: for any placement [(ox, oy)] and any non-empty column widths and row
    heights of the 3x3 grid, the painted buffer is [grid_picture]: a cross
    where an interior vertical and an interior horizontal line meet, a T
    opening right / down / left / up where an interior line meets the
    left / top / right / bottom perimeter, the four L corners at the grid's
    corners, straight lines on every other border position, and blanks
    elsewhere. *)
Theorem render_table_picture (ox oy w0 w1 w2 h0 h1 h2 : nat) :
  1 <= w0 -> 1 <= w1 -> 1 <= w2 -> 1 <= h0 -> 1 <= h1 -> 1 <= h2 ->
  forall x y,
    render_table ox oy [w0; w1; w2] [h0; h1; h2] empty_buffer x y =
    grid_picture ox oy w0 w1 w2 h0 h1 h2 x y.
Proof.
  intros Hw0 Hw1 Hw2 Hh0 Hh1 Hh2 x y.
  unfold render_table; cbn [adjacent enumerate_from fold_left].
  rewrite !render_block_at by nonempty_tac.
  unfold empty_buffer.
  assert (Hx : x < ox \/ ox <= x < ox + w0 \/ ox + w0 <= x < ox + w0 + w1 \/
               ox + w0 + w1 <= x < ox + w0 + w1 + w2 \/ ox + w0 + w1 + w2 <= x) by lia.
  assert (Hy : y < oy \/ oy <= y < oy + h0 \/ oy + h0 <= y < oy + h0 + h1 \/
               oy + h0 + h1 <= y < oy + h0 + h1 + h2 \/ oy + h0 + h1 + h2 <= y) by lia.
  destruct Hx as [Hx|[Hx|[Hx|[Hx|Hx]]]]; destruct Hy as [Hy|[Hy|[Hy|[Hy|Hy]]]];
    drop_outside.
  all: unfold block_point, grid_picture, vlines, hlines;
    cbv [borders_of border_set_of with_top_left with_top_right with_bottom_left
         with_bottom_right THICK top_left top_right bottom_left bottom_right
         vertical_left vertical_right horizontal_top horizontal_bottom
         left right top bottom rx ry rwidth rheight index_of option_map];
    eval_contains; cbn [andb].
  all: decide_cmps.
  all: reflexivity.
Qed.

(** Witness of C5: cells 18 wide and 4 high at the origin; the interior
    crossing of the first vertical and the first horizontal line. *)
Lemma render_table_picture_witness :
  (1 <= 18 /\ 1 <= 18 /\ 1 <= 18 /\ 1 <= 4 /\ 1 <= 4 /\ 1 <= 4) /\
  render_table 0 0 [18; 18; 18] [4; 4; 4] empty_buffer 18 3 =
    grid_picture 0 0 18 18 18 4 4 4 18 3 /\
  grid_picture 0 0 18 18 18 4 4 4 18 3 = Some THICK_CROSS.
Proof.
  split; [repeat split; lia|].
  split; [|reflexivity].
  apply render_table_picture; lia.
Defined.

(** C4: every grid shape [render_table] lays out satisfies the edge rule.
    Both of its layouts have the constraints [table_constraints] and split into
    one part per constraint, so the grid is [length table_constraints] columns
    by as many rows; on it every cell paints its bottom edge, its top edge only
    in row 0, its left edge in the first column, its right edge in the last,
    and each internal boundary is painted by exactly one of its two cells. *)
Theorem grid_plan_render_table :
  grid_plan_ok (List.length table_constraints) (List.length table_constraints).
Proof.
  change (grid_plan_ok 3 3).
  intros c r Hc Hr.
  destruct c as [|[|[|c]]]; [| | |lia];
    destruct r as [|[|[|r]]]; try lia;
    vm_compute; repeat split; intros; try reflexivity; lia.
Qed.

End GridClaims.

(* ================================================================== *)
(** ** Header: proofs *)

Module HeaderClaims.
Import Timer Header.
Local Open Scope N_scope.

(** With one clock value for both calls, the header is [spec_header] of
    [elapsed()]: "00:00" for [App::default()], "02:05" after 125 s. *)
Lemma header_text_one_reading (s : App) (now : Instant) :
  header_text s now now = spec_header (elapsed now s).
Proof. reflexivity. Qed.

Example header_fresh : header_text app_default 0 0 = "00:00"%string.
Proof. reflexivity. Qed.

Example header_125s :
  header_text (run_ops [(Start, 0%N); (Pause, 125000000000%N)] app_default)
    200000000000 200000000000 = "02:05"%string.
Proof. vm_compute; reflexivity. Qed.

Example elapsed_15s_scenario :
  elapsed 65000000000
    (run_ops [(Start, 0%N); (Pause, 10000000000%N); (Resume, 60000000000%N)]
       app_default) = 15000000000%N.
Proof. vm_compute; reflexivity. Qed.

(** C6: [render_header] reads the clock twice.  A timer started at 0 with
    nothing accumulated, read at 59.999999999 s for the minutes and at 60 s
    for the seconds, shows "00:00", which is the header of no elapsed
    duration between the two readings (those show "00:59" or "01:00"). *)
Theorem header_two_readings :
  let s := mkApp false true (Some 0%N) 0%N in
  header_text s 59999999999 60000000000 = "00:00"%string /\
  spec_header (elapsed 59999999999 s) = "00:59"%string /\
  spec_header (elapsed 60000000000 s) = "01:00"%string /\
  (forall d, (elapsed 59999999999 s <= d <= elapsed 60000000000 s)%N ->
     spec_header d <> header_text s 59999999999 60000000000).
Proof.
  cbv zeta.
  split; [vm_compute; reflexivity|].
  split; [vm_compute; reflexivity|].
  split; [vm_compute; reflexivity|].
  intros d Hd.
  assert (E1 : elapsed 59999999999 (mkApp false true (Some 0) 0) = 59999999999)
    by reflexivity.
  assert (E2 : elapsed 60000000000 (mkApp false true (Some 0) 0) = 60000000000)
    by reflexivity.
  rewrite E1, E2 in Hd.
  assert (Hs : as_secs d = 59 \/ as_secs d = 60).
  { unfold as_secs.
    assert (59 <= d / 1000000000 <= 60).
    { split.
      - apply N.div_le_lower_bound; lia.
      - apply N.Div0.div_le_upper_bound; lia. }
    lia. }
  unfold spec_header; destruct Hs as [Hs|Hs]; rewrite Hs; vm_compute; discriminate.
Qed.

End HeaderClaims.

(* ================================================================== *)
(** ** The main loop: proofs *)

Module LoopFacts.
Import Timer TimerFacts MainLoop.

(** The exit flag after a key: set by q, kept otherwise. *)
Lemma handle_key_event_exit (now : Instant) (k : KeyCode) (s : App) :
  exit (handle_key_event now k s) =
  (exit s || match k with Char c => Ascii.eqb c "q"%char | _ => false end)%bool.
Proof.
  destruct s as [e r st a]; destruct k as [c| | | | | | | | |n]; simpl;
    rewrite ?orb_false_r; try reflexivity.
  destruct (Ascii.eqb c "q"); [simpl; rewrite orb_true_r; reflexivity|].
  rewrite orb_false_r.
  destruct (Ascii.eqb c "i"); [destruct r, st; reflexivity|].
  destruct (Ascii.eqb c "p"); [destruct r, st; reflexivity|].
  destruct (Ascii.eqb c "c"); [destruct r, st; reflexivity|].
  reflexivity.
Qed.

(** A successful [handle_events] that sets the exit flag saw a q press. *)
Lemma handle_events_exit (now : Instant) (p : Poll) (s s' : App) :
  exit s = false -> handle_events now p s = Ok s' -> exit s' = true -> p = q_press.
Proof.
  intros He Hh Hx.
  destruct p as [| | |[| |[kc kk]| | |]]; simpl in Hh;
    try discriminate; inversion Hh; subst; try congruence.
  destruct kk; inversion Hh; subst; try congruence.
  rewrite handle_key_event_exit, He in Hx; simpl in Hx.
  destruct kc as [c| | | | | | | | |n]; try discriminate.
  apply Ascii.eqb_eq in Hx; subst; reflexivity.
Qed.

(** A successful [handle_events] runs the key presses it reads. *)
Lemma handle_events_pressed (d : bool) (now : Instant) (p : Poll) (s s' : App) :
  handle_events now p s = Ok s' -> s' = run_keys (pressed (mkIter d p now)) s.
Proof.
  intros Hh; unfold pressed; simpl.
  destruct p as [| | |[| |[kc kk]| | |]]; simpl in Hh;
    try discriminate; inversion Hh; subst; try reflexivity.
  destruct kk; inversion Hh; subst; reflexivity.
Qed.

Lemma handle_events_inv (now : Instant) (p : Poll) (s s' : App) :
  app_inv s -> handle_events now p s = Ok s' -> app_inv s'.
Proof.
  intros H Hh; rewrite (handle_events_pressed true now p s s' Hh).
  now apply run_keys_inv.
Qed.

Lemma run_keys_app (ks1 ks2 : list (KeyCode * Instant)) (s : App) :
  run_keys (ks1 ++ ks2) s = run_keys ks2 (run_keys ks1 s).
Proof.
  revert s; induction ks1 as [|[k t] ks1 IH]; intros s; simpl; auto.
Qed.

End LoopFacts.

Module LoopClaims.
Import Timer TimerFacts MainLoop LoopFacts.

(** [handle_events] sets the exit flag only when it reads a press of q:
    other keys, key repeats and releases, other events, timeouts and errors
    never end the program. *)
Theorem handle_events_exit_only_on_q (now : Instant) (p : Poll) (s s' : App) :
  exit s = false -> handle_events now p s = Ok s' -> exit s' = true -> p = q_press.
Proof. apply handle_events_exit. Qed.

Lemma handle_events_exit_only_on_q_witness :
  exit app_default = false /\
  handle_events 0%N q_press app_default = Ok (app_exit app_default) /\
  exit (app_exit app_default) = true /\ q_press = q_press.
Proof.
  split; [reflexivity|]; split; [reflexivity|]; split; [reflexivity|].
  exact (handle_events_exit_only_on_q 0%N q_press app_default (app_exit app_default)
           eq_refl eq_refl eq_refl).
Defined.



(** A drawn turn that reads a press of q ends the loop with the exit flag set
    and the timer as it was, whatever turns follow. *)
Theorem q_press_ends_run (it : Iteration) (its : list Iteration) (s : App) :
  exit s = false -> draw_ok it = true -> polled it = q_press ->
  run (it :: its) s = Exited (app_exit s).
Proof.
  intros He Hd Hp; simpl; rewrite He, Hd, Hp; simpl.
  destruct its; reflexivity.
Qed.

Lemma q_press_ends_run_witness :
  run [mkIter true q_press 5%N; mkIter true (Read (Key (mkKeyEvent (Char "i") Press))) 6%N]
    app_default = Exited (app_exit app_default).
Proof.
  apply q_press_ends_run; reflexivity.
Defined.

(** A failed draw, a failed poll or a failed read ends the loop with an error,
    before the turn changes the state. *)
Theorem run_error_keeps_state (it : Iteration) (its : list Iteration) (s : App) :
  exit s = false ->
  (draw_ok it = false \/ polled it = PollFailed \/ polled it = ReadFailed) ->
  run (it :: its) s = Failed s.
Proof.
  intros He Herr; simpl; rewrite He.
  destruct (draw_ok it); [|reflexivity]; simpl.
  destruct Herr as [Hd|[Hp|Hp]]; [discriminate|rewrite Hp; reflexivity..].
Qed.

Lemma run_error_keeps_state_witness :
  run [mkIter true ReadFailed 3%N; mkIter true q_press 4%N]
    (mkApp false true (Some 1%N) 7%N) = Failed (mkApp false true (Some 1%N) 7%N).
Proof.
  apply run_error_keeps_state; [reflexivity | right; right; reflexivity].
Defined.

(** [App::run] keeps "[start_time] is present iff the timer runs": whether it
    exits, fails or is still looping, its state satisfies it. *)
Theorem run_keeps_inv (its : list Iteration) (s : App) :
  app_inv s -> app_inv (outcome_state (run its s)).
Proof.
  revert s; induction its as [|it its IH]; intros s H; simpl.
  - destruct (exit s); exact H.
  - destruct (exit s); [exact H|].
    destruct (negb (draw_ok it)); [exact H|].
    destruct (handle_events (clock it) (polled it) s) as [s'|] eqn:E; [|exact H].
    apply IH; eapply handle_events_inv; eauto.
Qed.

Lemma run_keeps_inv_witness :
  app_inv app_default /\
  app_inv (outcome_state (run [mkIter true (Read (Key (mkKeyEvent (Char "i") Press))) 2%N]
                            app_default)).
Proof.
  split; [exact app_default_inv|].
  exact (run_keeps_inv _ app_default app_default_inv).
Defined.

(** The loop only returns [Ok] after a turn it ran that drew the screen and
    read a press of q: the turns split into a prefix after which the loop is
    still running, in some state [s1] without the exit flag, then that turn;
    the loop ends in [app_exit s1] and the turns after it are never run. *)
Theorem run_exits_only_after_q (its : list Iteration) (s s' : App) :
  exit s = false -> run its s = Exited s' ->
  exists pre it post s1,
    its = pre ++ it :: post /\ run pre s = Pending s1 /\ exit s1 = false /\
    draw_ok it = true /\ polled it = q_press /\ s' = app_exit s1.
Proof.
  revert s; induction its as [|it its IH]; intros s He Hr; simpl in Hr;
    rewrite He in Hr; [discriminate|].
  destruct (draw_ok it) eqn:Hd; simpl in Hr; [|discriminate].
  destruct (handle_events (clock it) (polled it) s) as [s1|] eqn:E; [|discriminate].
  destruct (exit s1) eqn:He1.
  - pose proof (handle_events_exit _ _ _ _ He E He1) as Hq.
    rewrite Hq in E; simpl in E; inversion E; subst s1.
    exists [], it, its, s; split; [reflexivity|].
    split; [simpl; rewrite He; reflexivity|].
    split; [exact He|]; split; [exact Hd|]; split; [exact Hq|].
    destruct its; simpl in Hr; inversion Hr; reflexivity.
  - destruct (IH s1 He1 Hr) as [pre [it' [post [s2 [Hits [Hp Hrest]]]]]].
    exists (it :: pre), it', post, s2; split; [rewrite Hits; reflexivity|].
    split; [|exact Hrest].
    simpl; rewrite He, Hd, E; exact Hp.
Qed.

Lemma run_exits_only_after_q_witness :
  let its := [mkIter true (Read (Key (mkKeyEvent (Char "i") Press))) 0%N;
              mkIter true q_press 1%N; mkIter false PollFailed 2%N] in
  exit app_default = false /\
  run its app_default = Exited (mkApp true true (Some 0%N) 0%N) /\
  exists pre it post s1,
    its = pre ++ it :: post /\ run pre app_default = Pending s1 /\ exit s1 = false /\
    draw_ok it = true /\ polled it = q_press /\ mkApp true true (Some 0%N) 0%N = app_exit s1.
Proof.
  cbv zeta.
  assert (Hr : run [mkIter true (Read (Key (mkKeyEvent (Char "i") Press))) 0%N;
                    mkIter true q_press 1%N; mkIter false PollFailed 2%N] app_default =
               Exited (mkApp true true (Some 0%N) 0%N)) by reflexivity.
  split; [reflexivity|]; split; [exact Hr|].
  exact (run_exits_only_after_q _ app_default _ eq_refl Hr).
Defined.

(** While the loop runs, its state is the one [handle_key_event] reaches on
    the key presses read so far, in order, each at its clock value. *)
Theorem run_pending_is_run_keys (its : list Iteration) (s s' : App) :
  run its s = Pending s' -> s' = run_keys (flat_map pressed its) s.
Proof.
  revert s; induction its as [|it its IH]; intros s Hr; simpl in Hr.
  - destruct (exit s); inversion Hr; reflexivity.
  - destruct (exit s); [discriminate|].
    destruct (negb (draw_ok it)); [discriminate|].
    destruct (handle_events (clock it) (polled it) s) as [s1|] eqn:E; [|discriminate].
    simpl; rewrite run_keys_app.
    destruct it as [d p t]; simpl in E.
    rewrite <- (handle_events_pressed d t p s s1 E).
    exact (IH s1 Hr).
Qed.

Lemma run_pending_is_run_keys_witness :
  let its := [mkIter true (Read (Key (mkKeyEvent (Char "i") Press))) 1%N;
              mkIter true (Read (Key (mkKeyEvent (Char "p") Release))) 2%N;
              mkIter true (Read (Key (mkKeyEvent (Char "p") Press))) 3%N] in
  run its app_default = Pending (mkApp false false None 2%N) /\
  mkApp false false None 2%N = run_keys (flat_map pressed its) app_default.
Proof.
  cbv zeta.
  assert (Hr : run [mkIter true (Read (Key (mkKeyEvent (Char "i") Press))) 1%N;
              mkIter true (Read (Key (mkKeyEvent (Char "p") Release))) 2%N;
              mkIter true (Read (Key (mkKeyEvent (Char "p") Press))) 3%N] app_default =
               Pending (mkApp false false None 2%N)) by reflexivity.
  split; [exact Hr | exact (run_pending_is_run_keys _ _ _ Hr)].
Defined.

(** [main] returns [Ok(())] exactly when the terminal was set up, the loop
    returned through the exit flag, and the terminal was restored: a loop
    error is returned even when the restore succeeds, and a failed restore
    turns a clean exit into an error. *)
Theorem main_ok_iff (init_ok : bool) (its : list Iteration) (restore_ok : bool) :
  main init_ok its restore_ok = Some (Ok tt) <->
  init_ok = true /\ restore_ok = true /\ exists s', run its app_default = Exited s'.
Proof.
  unfold main; destruct init_ok; simpl.
  - destruct (run its app_default) as [s'|s'|s'];
      destruct restore_ok; simpl; split;
      try (intros H; discriminate H);
      try (intros [_ [H _]]; discriminate H);
      try (intros [_ [_ [s'' H]]]; discriminate H).
    + intros _; repeat split; exists s'; reflexivity.
    + intros _; reflexivity.
  - split; [intros H; discriminate H | intros [H _]; discriminate H].
Qed.

End LoopClaims.

(* ================================================================== *)
(** ** More timer properties *)

Module TimerMore.
Import Timer TimerFacts.

(** A key read at [t >= t1] does not lower the elapsed time seen at [t1]. *)
Lemma elapsed_key_step_mono (k : KeyCode) (s : App) (t1 t : Instant) :
  (t1 <= t)%N -> (elapsed t1 s <= elapsed t (handle_key_event t k s))%N.
Proof.
  intros H; destruct k as [c| | | | | | | | |n]; simpl;
    try (apply elapsed_mono_now; exact H).
  destruct (Ascii.eqb c "q").
  { destruct s as [e r st a]; exact (elapsed_mono_now (mkApp e r st a) t1 t H). }
  destruct (Ascii.eqb c "i"); [exact (elapsed_step_mono Start s t1 t H)|].
  destruct (Ascii.eqb c "p"); [exact (elapsed_step_mono Pause s t1 t H)|].
  destruct (Ascii.eqb c "c"); [exact (elapsed_step_mono Resume s t1 t H)|].
  apply elapsed_mono_now; exact H.
Qed.

(** C9 for the keys of the main loop: with a clock that never goes back, the
    elapsed time read after a run of key presses is at least the one read
    before it. *)
Theorem elapsed_monotone_keys (s : App) (t1 : Instant) (ks : list (KeyCode * Instant))
  (t2 : Instant) :
  Sorted N.le (t1 :: map snd ks ++ [t2]) ->
  (elapsed t1 s <= elapsed t2 (run_keys ks s))%N.
Proof.
  revert s t1; induction ks as [|[k t] ks IH]; intros s t1 Hs; simpl in *.
  - apply elapsed_mono_now.
    apply Sorted_inv in Hs as [_ Hd]; now apply HdRel_inv in Hd.
  - apply Sorted_inv in Hs as [Hs Hd]; apply HdRel_inv in Hd.
    eapply N.le_trans; [apply (elapsed_key_step_mono k s t1 t Hd)|].
    apply IH, Hs.
Qed.

Lemma elapsed_monotone_keys_witness :
  Sorted N.le (1%N :: map snd [(Char "i", 2%N); (Char "x", 4%N); (Char "p", 9%N)] ++ [12%N]) /\
  (elapsed 1%N app_default <=
   elapsed 12%N (run_keys [(Char "i", 2%N); (Char "x", 4%N); (Char "p", 9%N)] app_default))%N.
Proof.
  assert (Hs : Sorted N.le
    (1%N :: map snd [(Char "i", 2%N); (Char "x", 4%N); (Char "p", 9%N)] ++ [12%N])).
  { simpl; repeat constructor; simpl; lia. }
  split; [exact Hs | exact (elapsed_monotone_keys app_default 1%N _ 12%N Hs)].
Defined.

(** Pausing and resuming at the same instant [t] loses no time: read at any
    later [t'], the elapsed time is the one without the pause. *)
Theorem pause_resume_same_instant (s : App) (t0 t t' : Instant) :
  is_timer_running s = true -> start_time s = Some t0 ->
  (t0 <= t)%N -> (t <= t')%N ->
  elapsed t' (continue_timer t (stop_timer t s)) = elapsed t' s.
Proof.
  intros Hr Ht H1 H2; destruct s as [e r st a]; simpl in Hr, Ht; subst.
  unfold stop_timer, continue_timer, elapsed, instant_elapsed; simpl; lia.
Qed.

Lemma pause_resume_same_instant_witness :
  elapsed 20%N (continue_timer 8%N (stop_timer 8%N (mkApp false true (Some 5%N) 100%N))) =
  elapsed 20%N (mkApp false true (Some 5%N) 100%N).
Proof.
  apply (pause_resume_same_instant _ 5%N); simpl; (reflexivity || lia).
Defined.

(** After [stop_timer] at [now], [elapsed()] is frozen: it reads the same at
    every clock value, the value it had at [now]. *)
Theorem elapsed_frozen_after_pause (s : App) (now t : Instant) :
  elapsed t (stop_timer now s) = elapsed now s.
Proof.
  destruct s as [e [|] [t0|] a]; unfold stop_timer, elapsed; simpl; reflexivity.
Qed.

End TimerMore.

(* ================================================================== *)
(** ** The header text read back *)

Module DecodeFacts.
Import Timer Header Decode.

Lemma string_app_assoc (a b c : string) : ((a ++ b) ++ c)%string = (a ++ (b ++ c))%string.
Proof. induction a as [|x a IH]; simpl; [reflexivity | rewrite IH; reflexivity]. Qed.

Lemma string_length_app (a b : string) :
  String.length (a ++ b) = String.length a + String.length b.
Proof. induction a as [|x a IH]; simpl; [reflexivity | rewrite IH; reflexivity]. Qed.

Lemma length_zeros (k : nat) : String.length (zeros k) = k.
Proof. induction k as [|k IH]; simpl; auto. Qed.

Lemma parse_acc_app (acc : N) (a b : string) :
  parse_acc acc (a ++ b) =
  match parse_acc acc a with Some v => parse_acc v b | None => None end.
Proof.
  revert acc; induction a as [|c a IH]; intros acc; simpl; [reflexivity|].
  destruct (digit_value c); [apply IH | reflexivity].
Qed.

Lemma parse_acc_zeros (k : nat) : parse_acc 0%N (zeros k) = Some 0%N.
Proof. induction k as [|k IH]; simpl; auto. Qed.

Lemma parse_acc_digits (acc : N) (u : Decimal.uint) :
  parse_acc acc (uint_digits u) = Some (uint_val_acc acc u).
Proof. revert acc; induction u; intros acc; simpl; auto. Qed.

Lemma uint_val_acc_pos (a : positive) (u : Decimal.uint) :
  uint_val_acc (N.pos a) u = N.pos (Pos.of_uint_acc u a).
Proof.
  revert a; induction u as [|u IH|u IH|u IH|u IH|u IH|u IH|u IH|u IH|u IH|u IH];
    intros a; cbn [uint_val_acc Pos.of_uint_acc]; [reflexivity|..];
    rewrite <- IH; f_equal; lia.
Qed.

Lemma uint_val_acc_zero (u : Decimal.uint) : uint_val_acc 0%N u = N.of_uint u.
Proof.
  unfold N.of_uint.
  induction u as [|u IH|u IH|u IH|u IH|u IH|u IH|u IH|u IH|u IH|u IH];
    cbn [uint_val_acc Pos.of_uint]; try reflexivity; [exact IH|..];
    rewrite <- uint_val_acc_pos; reflexivity.
Qed.

Lemma fmt_02_length (n : N) : 2 <= String.length (fmt_02 n).
Proof. unfold fmt_02; rewrite string_length_app, length_zeros; lia. Qed.

Lemma parse_decimal_fmt_02 (n : N) : parse_decimal (fmt_02 n) = Some n.
Proof.
  unfold parse_decimal.
  destruct (Nat.eqb_spec (String.length (fmt_02 n)) 0) as [E|_];
    [pose proof (fmt_02_length n); lia|].
  unfold fmt_02; rewrite parse_acc_app, parse_acc_zeros, parse_acc_digits,
    uint_val_acc_zero, DecimalN.Unsigned.of_to; reflexivity.
Qed.

Lemma split_colon_digits (u : Decimal.uint) (b : string) :
  split_colon (uint_digits u ++ String ":" b) = Some (uint_digits u, b).
Proof. induction u; simpl; rewrite ?IHu; reflexivity. Qed.

Lemma split_colon_fmt_02 (n : N) (b : string) :
  split_colon (fmt_02 n ++ String ":" b) = Some (fmt_02 n, b).
Proof.
  unfold fmt_02; rewrite string_app_assoc.
  generalize (2 - String.length (uint_digits (N.to_uint n))) as k.
  induction k as [|k IH]; simpl; [apply split_colon_digits|].
  rewrite IH; reflexivity.
Qed.

(** [{:02}] below 100, checked value by value. *)
Lemma fmt_02_small_table :
  forallb (fun k => String.eqb (fmt_02 (N.of_nat k))
             (String (digit_char (N.of_nat k / 10))
               (String (digit_char (N.of_nat k mod 10)) EmptyString)))
    (seq 0 100) = true.
Proof. vm_compute; reflexivity. Qed.

Lemma fmt_02_small (n : N) :
  (n < 100)%N ->
  fmt_02 n = String (digit_char (n / 10)) (String (digit_char (n mod 10)) EmptyString).
Proof.
  intros H.
  assert (Hin : In (N.to_nat n) (seq 0 100)) by (apply in_seq; lia).
  pose proof (proj1 (forallb_forall _ _) fmt_02_small_table _ Hin) as E.
  cbv beta in E; rewrite N2Nat.id in E; apply String.eqb_eq in E; exact E.
Qed.

End DecodeFacts.

Module HeaderMore.
Import Timer Header Decode DecodeFacts.

(** [{:02}] on a number below 100 writes exactly its two decimal digits, the
    tens then the units. *)
Theorem fmt_02_two_digits (n : N) :
  (n < 100)%N ->
  fmt_02 n = String (digit_char (n / 10)) (String (digit_char (n mod 10)) EmptyString).
Proof. apply fmt_02_small. Qed.

Lemma fmt_02_two_digits_witness :
  (7 < 100)%N /\ fmt_02 7 = String (digit_char (7 / 10)) (String (digit_char (7 mod 10)) EmptyString).
Proof.
  split; [lia | apply fmt_02_two_digits; lia].
Defined.

(** [{:02}] never truncates: it writes at least two characters, and reading
    them back as a decimal number gives the number written, for every [u64]
    value, 100 and above included. *)
Theorem fmt_02_round_trip (n : N) :
  parse_decimal (fmt_02 n) = Some n /\ 2 <= String.length (fmt_02 n).
Proof. split; [apply parse_decimal_fmt_02 | apply fmt_02_length]. Qed.

(** The header text reads back as [minutes:seconds], the minutes from the
    first [elapsed()] call and the seconds from the second; the seconds
    field always has two characters, so the text is three characters longer
    than its minutes field. *)
Theorem header_text_reads_back (app : App) (now_m now_s : Instant) :
  parse_header (header_text app now_m now_s) =
    Some ((as_secs (elapsed now_m app) / 60)%N, (as_secs (elapsed now_s app) mod 60)%N) /\
  String.length (header_text app now_m now_s) =
    String.length (fmt_02 (as_secs (elapsed now_m app) / 60)) + 3.
Proof.
  unfold header_text, parse_header; cbn [String.append].
  rewrite split_colon_fmt_02, !parse_decimal_fmt_02; split; [reflexivity|].
  rewrite string_length_app; simpl.
  rewrite (fmt_02_small (as_secs (elapsed now_s app) mod 60)) by
    (pose proof (N.mod_lt (as_secs (elapsed now_s app)) 60); lia).
  simpl; lia.
Qed.

(** Below 100 minutes (6000 seconds at the first reading) the header is the
    five characters [mm:ss]. *)
Theorem header_text_five_chars (app : App) (now_m now_s : Instant) :
  (as_secs (elapsed now_m app) < 6000)%N ->
  let m := (as_secs (elapsed now_m app) / 60)%N in
  let sec := (as_secs (elapsed now_s app) mod 60)%N in
  header_text app now_m now_s =
  String (digit_char (m / 10)) (String (digit_char (m mod 10)) (String ":"
    (String (digit_char (sec / 10)) (String (digit_char (sec mod 10)) EmptyString)))).
Proof.
  intros H; cbv zeta; unfold header_text.
  rewrite (fmt_02_small (as_secs (elapsed now_m app) / 60))
    by (apply N.Div0.div_lt_upper_bound; lia).
  rewrite (fmt_02_small (as_secs (elapsed now_s app) mod 60)) by
    (pose proof (N.mod_lt (as_secs (elapsed now_s app)) 60); lia).
  reflexivity.
Qed.

Lemma header_text_five_chars_witness :
  (as_secs (elapsed 125000000000%N (mkApp false true (Some 0%N) 0%N)) < 6000)%N /\
  header_text (mkApp false true (Some 0%N) 0%N) 125000000000%N 125000000000%N = "02:05"%string.
Proof.
  assert (H : (as_secs (elapsed 125000000000%N (mkApp false true (Some 0%N) 0%N)) < 6000)%N)
    by (vm_compute; reflexivity).
  split; [exact H|].
  rewrite (header_text_five_chars _ _ 125000000000%N H); vm_compute; reflexivity.
Defined.

End HeaderMore.

(* ================================================================== *)
(** ** More of the grid and the header boxes *)

Module BoxFacts.
Import Grid GridFacts HeaderBoxes.

(** Outside its area a block leaves the buffer as it is. *)
Lemma render_block_outside b s area buf x y :
  (x < left area \/ right area <= x \/ y < top area \/ bottom area <= y) ->
  render_block b s area buf x y = buf x y.
Proof.
  intros Hout; destruct (is_empty area) eqn:E.
  - unfold render_block; rewrite E; reflexivity.
  - rewrite (render_block_at _ _ _ _ _ _ E).
    unfold is_empty in E; apply orb_false_iff in E as [E1 E2].
    apply Nat.eqb_neq in E1; apply Nat.eqb_neq in E2.
    apply block_point_outside; [lia | lia | exact Hout].
Qed.

(** A [Borders::ALL] thick block paints the closed frame of its area. *)
Lemma block_point_all_thick (a : Rect) (x y : nat) (old : option glyph) :
  frame_picture a x y <> None -> block_point ALL THICK a x y old = frame_picture a x y.
Proof.
  destruct a as [ax ay aw ah]; unfold frame_picture, block_point;
    cbv [left right top bottom rx ry rwidth rheight THICK top_left top_right
         bottom_left bottom_right vertical_left vertical_right horizontal_top
         horizontal_bottom].
  replace (contains ALL (Z.lor LEFT TOP)) with true by reflexivity.
  replace (contains ALL (Z.lor LEFT BOTTOM)) with true by reflexivity.
  replace (contains ALL (Z.lor RIGHT TOP)) with true by reflexivity.
  replace (contains ALL (Z.lor RIGHT BOTTOM)) with true by reflexivity.
  replace (contains ALL BOTTOM) with true by reflexivity.
  replace (contains ALL RIGHT) with true by reflexivity.
  replace (contains ALL TOP) with true by reflexivity.
  replace (contains ALL LEFT) with true by reflexivity.
  cbn [andb orb negb].
  cmp_split; rewrite ?andb_true_r, ?andb_false_r; cbn [andb orb negb];
    intros Hn; try reflexivity; congruence.
Qed.

Lemma frame_picture_inside (a : Rect) (x y : nat) :
  frame_picture a x y <> None ->
  left a <= x < right a /\ top a <= y < bottom a.
Proof.
  unfold frame_picture; intros Hn.
  destruct (Nat.leb_spec (left a) x), (Nat.ltb_spec x (right a)),
    (Nat.leb_spec (top a) y), (Nat.ltb_spec y (bottom a));
    cbn [andb negb] in Hn; try (exfalso; apply Hn; reflexivity); lia.
Qed.

Lemma render_block_all_thick (a : Rect) (buf : Buffer) (x y : nat) :
  frame_picture a x y <> None -> render_block ALL THICK a buf x y = frame_picture a x y.
Proof.
  intros Hn; pose proof (frame_picture_inside a x y Hn) as Hin.
  assert (E : is_empty a = false).
  { destruct a as [ax ay aw ah]; unfold is_empty, left, right, top, bottom in *;
      simpl in *; apply orb_false_iff; split; apply Nat.eqb_neq; lia. }
  rewrite (render_block_at _ _ _ _ _ _ E); apply block_point_all_thick, Hn.
Qed.

Lemma fold_left_keeps {A} (f : Buffer -> A -> Buffer) (l : list A) (buf : Buffer) (x y : nat) :
  (forall b a, In a l -> f b a x y = b x y) -> fold_left f l buf x y = buf x y.
Proof.
  revert buf; induction l as [|a l IH]; intros buf Hf; simpl; [reflexivity|].
  rewrite IH; [apply Hf; left; reflexivity|].
  intros b a' Ha'; apply Hf; right; exact Ha'.
Qed.

Lemma in_enumerate_from {A} (i k : nat) (a : A) (l : list A) :
  In (k, a) (enumerate_from i l) -> In a l.
Proof.
  revert i; induction l as [|b l IH]; intros i H; simpl in *; [contradiction|].
  destruct H as [H|H]; [injection H; intros; subst; left; reflexivity|].
  right; exact (IH _ H).
Qed.

Lemma in_adjacent (start p n : nat) (sizes : list nat) :
  In (p, n) (adjacent start sizes) -> start <= p /\ p + n <= start + list_sum sizes.
Proof.
  revert start; induction sizes as [|m sizes IH]; intros start H; simpl in *;
    [contradiction|].
  destruct H as [H|H]; [injection H; intros; subst; lia|].
  apply IH in H; lia.
Qed.

End BoxFacts.

Module GridMore.
Import Grid GridFacts HeaderBoxes BoxFacts.

(** The border sets of [render_table] only change corners, and only corners
    the cell draws: each replaced corner sits where both of its sides are in
    the cell's [Borders], and the side glyphs are always the thick lines. *)
Theorem border_set_overrides_drawn (vi hi : nat) :
  let bs := border_set_of vi hi in
  let b := borders_of vi hi in
  vertical_left bs = THICK_VERTICAL /\ vertical_right bs = THICK_VERTICAL /\
  horizontal_top bs = THICK_HORIZONTAL /\ horizontal_bottom bs = THICK_HORIZONTAL /\
  (top_left bs <> THICK_TOP_LEFT -> contains b (Z.lor LEFT TOP) = true) /\
  (top_right bs <> THICK_TOP_RIGHT -> contains b (Z.lor RIGHT TOP) = true) /\
  (bottom_left bs <> THICK_BOTTOM_LEFT -> contains b (Z.lor LEFT BOTTOM) = true) /\
  (bottom_right bs <> THICK_BOTTOM_RIGHT -> contains b (Z.lor RIGHT BOTTOM) = true).
Proof.
  destruct vi as [|[|[|vi]]], hi as [|[|[|hi]]]; vm_compute;
    repeat split; try reflexivity; intros H; exfalso; apply H; reflexivity.
Qed.

(** The two side boxes of the header are drawn after the middle one and away
    from each other, so each shows its whole thick frame, whatever the middle
    paragraph (title and timer text) wrote. *)
Theorem header_side_boxes_framed (para : Rect -> Buffer -> Buffer)
  (ox oy w0 w1 w2 h : nat) (buf : Buffer) (x y : nat) :
  let out := render_header_boxes para ox oy w0 w1 w2 h buf in
  (frame_picture (mkRect ox oy w0 h) x y <> None ->
     out x y = frame_picture (mkRect ox oy w0 h) x y) /\
  (frame_picture (mkRect (ox + w0 + w1) oy w2 h) x y <> None ->
     out x y = frame_picture (mkRect (ox + w0 + w1) oy w2 h) x y).
Proof.
  cbv zeta; unfold render_header_boxes; cbv zeta; split; intros Hn.
  - pose proof (frame_picture_inside _ _ _ Hn) as Hin.
    rewrite render_block_outside
      by (left; unfold left, right in *; cbn [rx rwidth] in *; lia).
    apply render_block_all_thick, Hn.
  - apply render_block_all_thick, Hn.
Qed.

(** [render_table] writes nothing outside the region its layouts cover, for
    any widths of the columns and heights of the rows. *)
Theorem render_table_stays_inside (ox oy : nat) (ws hs : list nat) (buf : Buffer) (x y : nat) :
  (x < ox \/ ox + list_sum ws <= x \/ y < oy \/ oy + list_sum hs <= y) ->
  render_table ox oy ws hs buf x y = buf x y.
Proof.
  intros Hout; unfold render_table.
  apply fold_left_keeps; intros b [vi [cx w]] Hc.
  apply in_enumerate_from, in_adjacent in Hc.
  apply fold_left_keeps; intros b' [hi [ry' hh]] Hr.
  apply in_enumerate_from, in_adjacent in Hr.
  apply render_block_outside; unfold left, right, top, bottom; cbn [rx ry rwidth rheight].
  lia.
Qed.

Lemma render_table_stays_inside_witness :
  (20 < 0 \/ 0 + list_sum [6; 6; 6] <= 20 \/ 1 < 0 \/ 0 + list_sum [3; 3; 3] <= 1) /\
  render_table 0 0 [6; 6; 6] [3; 3; 3] empty_buffer 20 1 = None.
Proof.
  assert (H : 20 < 0 \/ 0 + list_sum [6; 6; 6] <= 20 \/ 1 < 0 \/ 0 + list_sum [3; 3; 3] <= 1)
    by (simpl; lia).
  split; [exact H|].
  exact (render_table_stays_inside 0 0 [6; 6; 6] [3; 3; 3] empty_buffer 20 1 H).
Defined.

End GridMore.
